(** * temp_whatsapp_setup.py: the WhatsApp quick-setup checklist

    The script is a straight-line module body: two [import] statements
    followed by eleven calls of [print] on string literals.  This file
    gives that module body as a list of statements, an execution model of
    the two statement forms over an explicit world (the standard streams,
    the process environment, the files, the network and the module
    namespace), a small-step machine that runs the list, and the
    properties of the checklist proved over it. *)

From Stdlib Require Import String Ascii List Lia.
From stdpp Require Import base strings gmap list relations.

Local Open Scope string_scope.

(** ** Python values and statements used by the script *)

(** The escape [\n] of a Python string literal. *)
Definition nl : string := String (ascii_of_nat 10) EmptyString.

(** The one exception the script can raise: an [import] of a module the
    import system cannot find. *)
Inductive exception : Type :=
| ModuleNotFoundError (name : string).

(** The two statement forms of the module body: [import name] and
    [print(text)] with [text] a string literal. *)
Inductive stmt : Type :=
| import (name : string)
| print (text : string).

(** ** The module body, statement by statement (lines 1-15 of the file;
    line 3 is blank and line 4 a comment) *)
Definition temp_whatsapp_setup : list stmt :=
  [ import "requests";
    import "json";
    print "=== WhatsApp Business API Quick Setup ===";
    print (nl +:+ "1. Go to: https://developers.facebook.com/apps");
    print "2. Click on your WhatsApp app";
    print "3. Go to: WhatsApp > API Setup";
    print (nl +:+ "4. Copy these values:");
    print "   - Temporary access token";
    print "   - Phone number ID (select your +60142779902)";
    print "   - Business Account ID";
    print (nl +:+ "5. Go to: Settings > Basic");
    print "   - Copy App Secret";
    print (nl +:+ "Paste your credentials here when ready!") ].

(** ** The world a run acts on *)

(** What a process can observe or change.  [stderr] keeps, for every
    traceback the interpreter writes, the exception it reports (the
    wording of a traceback is the interpreter's).  [sent] lists the
    network requests issued so far, [namespace] the names bound at module
    level. *)
Record World : Type := mkWorld {
  stdout : string;
  stderr : list exception;
  stdin : string;
  environ : gmap string string;
  files : gmap string string;
  sent : list string;
  namespace : gset string
}.

(** How the script is started.  [installed] is the set of module names the
    import system resolves (standard library and site packages); it stands
    for the interpreter's module search, which is not an action of the
    script. *)
Record Invocation : Type := mkInvocation {
  argv : list string;
  os_environ : gmap string string;
  disk : gmap string string;
  input : string;
  installed : gset string
}.

(** The world at interpreter start: nothing written, nothing sent, an
    empty module namespace. *)
Definition boot (i : Invocation) : World :=
  {| stdout := ""; stderr := []; stdin := input i;
     environ := os_environ i; files := disk i;
     sent := []; namespace := ∅ |}.

(** [sys.stdout.write(s)] *)
Definition write_stdout (s : string) (w : World) : World :=
  {| stdout := stdout w +:+ s; stderr := stderr w; stdin := stdin w;
     environ := environ w; files := files w;
     sent := sent w; namespace := namespace w |}.

(** Binding of a name at module level. *)
Definition bind_name (name : string) (w : World) : World :=
  {| stdout := stdout w; stderr := stderr w; stdin := stdin w;
     environ := environ w; files := files w;
     sent := sent w; namespace := {[ name ]} ∪ namespace w |}.

(** The interpreter's report of an uncaught exception: a traceback on
    standard error. *)
Definition report (e : exception) (w : World) : World :=
  {| stdout := stdout w; stderr := stderr w ++ [e]; stdin := stdin w;
     environ := environ w; files := files w;
     sent := sent w; namespace := namespace w |}.

(** Execution of one statement.  [import name] binds [name] when the
    module is found and raises [ModuleNotFoundError] otherwise;
    [print(text)] writes [text] followed by the default [end], a newline,
    to standard output. *)
Definition exec (mods : gset string) (s : stmt) (w : World) : World + exception :=
  match s with
  | import name =>
      if decide (name ∈ mods) then inl (bind_name name w)
      else inr (ModuleNotFoundError name)
  | print text => inl (write_stdout (text +:+ nl) w)
  end.

(** ** Running the module body *)

(** The result of a process: its exit status and the world it leaves. *)
Record Outcome : Type := mkOutcome {
  exit_code : nat;
  final : World
}.

(** Statements run in order; the first uncaught exception ends the run
    with a traceback and exit status 1, the end of the body with exit
    status 0. *)
Fixpoint run_block (mods : gset string) (todo : list stmt) (w : World) : Outcome :=
  match todo with
  | [] => {| exit_code := 0; final := w |}
  | s :: rest =>
      match exec mods s w with
      | inl w' => run_block mods rest w'
      | inr e => {| exit_code := 1; final := report e w |}
      end
  end.

Definition run (i : Invocation) : Outcome :=
  run_block (installed i) temp_whatsapp_setup (boot i).

(** ** The same execution as a machine *)

Inductive config : Type :=
| running (todo : list stmt) (w : World)
| terminated (code : nat) (w : World).

Definition world_of (c : config) : World :=
  match c with
  | running _ w => w
  | terminated _ w => w
  end.

Definition halted (c : config) : Prop :=
  match c with
  | running _ _ => False
  | terminated _ _ => True
  end.

Inductive step (mods : gset string) : config → config → Prop :=
| step_next s todo w w' :
    exec mods s w = inl w' →
    step mods (running (s :: todo) w) (running todo w')
| step_raise s todo w e :
    exec mods s w = inr e →
    step mods (running (s :: todo) w) (terminated 1 (report e w))
| step_exit w :
    step mods (running [] w) (terminated 0 w).

Definition start (i : Invocation) : config :=
  running temp_whatsapp_setup (boot i).

(** A complete execution of the script started as [i]. *)
Definition completes (i : Invocation) (c : config) : Prop :=
  rtc (step (installed i)) (start i) c ∧ halted c.

(** ** The text block of section 6 of the specification *)

(** Each line followed by a newline. *)
Definition unlines (ls : list string) : string :=
  foldr (λ l acc, l +:+ nl +:+ acc) "" ls.

Definition section6_lines : list string :=
  [ "=== WhatsApp Business API Quick Setup ===";
    "";
    "1. Go to: https://developers.facebook.com/apps";
    "2. Click on your WhatsApp app";
    "3. Go to: WhatsApp > API Setup";
    "";
    "4. Copy these values:";
    "   - Temporary access token";
    "   - Phone number ID (select your +60142779902)";
    "   - Business Account ID";
    "";
    "5. Go to: Settings > Basic";
    "   - Copy App Secret";
    "";
    "Paste your credentials here when ready!" ].

Definition section6_text : string := unlines section6_lines.

(** ** Two concrete installations *)

(** A Python with its standard library only: [json] is there, the
    third-party package [requests] is not. *)
Definition stock_python : Invocation :=
  {| argv := []; os_environ := ∅; disk := ∅; input := "";
     installed := {[ "json" ]} |}.

(** The same with [requests] installed. *)
Definition with_requests : Invocation :=
  {| argv := []; os_environ := ∅; disk := ∅; input := "";
     installed := {[ "json"; "requests" ]} |}.


(** ** Predicates used in the statements *)

(** The resources no statement of the script touches. *)
Definition untouched (w w' : World) : Prop :=
  stdin w' = stdin w ∧ environ w' = environ w ∧
  files w' = files w ∧ sent w' = sent w.

(** What the statements act on: the two output streams and the module
    namespace. *)
Definition observe (w : World) : string * list exception * gset string :=
  (stdout w, stderr w, namespace w).

(** The statement is an [import]. *)
Definition is_import (s : stmt) : Prop :=
  match s with import _ => True | print _ => False end.

(** The statement is an [import] of a module that is not found. *)
Definition missing (mods : gset string) (s : stmt) : Prop :=
  match s with import name => name ∉ mods | print _ => False end.



(** ** What a block prints and binds *)

(** The text the [print] statements of a block write, in order. *)
Fixpoint printed (b : list stmt) : string :=
  match b with
  | [] => ""
  | import _ :: rest => printed rest
  | print text :: rest => (text +:+ nl) +:+ printed rest
  end.

(** The names the [import] statements of a block bind. *)
Fixpoint imported (b : list stmt) : gset string :=
  match b with
  | [] => ∅
  | import name :: rest => {[ name ]} ∪ imported rest
  | print _ :: rest => imported rest
  end.

(** Every character is a 7-bit one. *)
Fixpoint ascii_only (s : string) : bool :=
  match s with
  | EmptyString => true
  | String a rest => (nat_of_ascii a <? 128)%nat && ascii_only rest
  end.


(** ** Both imports succeed *)


(** ** How the interpreter finds modules *)












(** ** What the statements leave alone *)

Lemma untouched_refl w : untouched w w.
Proof. by repeat split. Qed.

Lemma untouched_trans w1 w2 w3 :
  untouched w1 w2 → untouched w2 w3 → untouched w1 w3.
Proof.
  intros (Ha & Hb & Hc & Hd) (Ha' & Hb' & Hc' & Hd').
  repeat split; congruence.
Qed.

Lemma exec_untouched mods s w w' :
  exec mods s w = inl w' → untouched w w'.
Proof.
  destruct s as [name|text]; simpl.
  - case_decide; intros [= <-]. by repeat split.
  - intros [= <-]. by repeat split.
Qed.

Lemma report_untouched e w : untouched w (report e w).
Proof. by repeat split. Qed.

Lemma run_block_untouched mods todo :
  ∀ w, untouched w (final (run_block mods todo w)).
Proof.
  induction todo as [|s rest IH]; intros w; simpl.
  - apply untouched_refl.
  - destruct (exec mods s w) as [w'|e] eqn:Hs; simpl.
    + eapply untouched_trans; [by eapply exec_untouched | apply IH].
    + apply report_untouched.
Qed.

(** A statement sees of the world only what [observe] shows. *)
Lemma exec_observe mods s w1 w2 :
  observe w1 = observe w2 →
  match exec mods s w1, exec mods s w2 with
  | inl w1', inl w2' => observe w1' = observe w2'
  | inr e1, inr e2 => e1 = e2
  | _, _ => False
  end.
Proof.
  unfold observe. intros [= Ho He Hn].
  destruct s as [name|text]; simpl.
  - case_decide; [|done]. simpl. by rewrite Ho, He, Hn.
  - by rewrite Ho, He, Hn.
Qed.

Lemma run_block_observe mods todo :
  ∀ w1 w2, observe w1 = observe w2 →
    exit_code (run_block mods todo w1) = exit_code (run_block mods todo w2) ∧
    observe (final (run_block mods todo w1)) =
      observe (final (run_block mods todo w2)).
Proof.
  induction todo as [|s rest IH]; intros w1 w2 Hobs; simpl; [done|].
  pose proof (exec_observe mods s w1 w2 Hobs) as Hs.
  destruct (exec mods s w1) as [w1'|e1], (exec mods s w2) as [w2'|e2];
    try done.
  - by apply IH.
  - subst e2. split; [done|]. simpl.
    unfold observe in *. simpl. by injection Hobs as -> -> ->.
Qed.

(** ** The machine: determinism, agreement with [run_block], length *)

Section Machine.
Context (mods : gset string).

Implicit Types (c : config) (w : World) (todo : list stmt).

Lemma step_deterministic c c1 c2 :
  step mods c c1 → step mods c c2 → c1 = c2.
Proof.
  intros H1 H2.
  inversion H1; subst; inversion H2; subst; congruence.
Qed.

Lemma halted_stuck c c' : halted c → ¬ step mods c c'.
Proof. intros Hh Hs. by inversion Hs; subst. Qed.

Lemma rtc_halted c c' : halted c → rtc (step mods) c c' → c' = c.
Proof.
  intros Hh Hr. destruct Hr as [|c y z Hs _]; [done|].
  by destruct (halted_stuck c y).
Qed.


Lemma nsteps_deterministic n :
  ∀ m c c1 c2,
    nsteps (step mods) n c c1 → halted c1 →
    nsteps (step mods) m c c2 → halted c2 → n = m ∧ c1 = c2.
Proof.
  induction n as [|n IH]; intros m c c1 c2 H1 Hh1 H2 Hh2.
  - inversion H1; subst.
    inversion H2 as [|? ? y ? Hs _]; subst; [done|].
    by destruct (halted_stuck c1 y).
  - inversion H1 as [|? ? y ? Hs Hrest]; subst.
    inversion H2 as [|m' ? y' ? Hs' Hrest']; subst.
    + by destruct (halted_stuck c2 y).
    + rewrite (step_deterministic _ _ _ Hs' Hs) in Hrest'.
      destruct (IH m' y c1 c2) as [-> ->]; done.
Qed.

(** One step of the machine is one round of [run_block]. *)
Lemma step_run_block s rest w :
  step mods (running (s :: rest) w)
    match exec mods s w with
    | inl w' => running rest w'
    | inr e => terminated 1 (report e w)
    end.
Proof.
  destruct (exec mods s w) eqn:Hs; by constructor.
Qed.

(** The machine reaches the outcome [run_block] computes, in no more
    steps than there are statements, plus the final one. *)
Lemma run_block_nsteps todo :
  ∀ w, ∃ n, (n ≤ S (length todo))%nat ∧
    nsteps (step mods) n (running todo w)
      (terminated (exit_code (run_block mods todo w))
                  (final (run_block mods todo w))).
Proof.
  induction todo as [|s rest IH]; intros w; simpl.
  - exists 1. split; [lia|]. eapply nsteps_l; [constructor | constructor].
  - pose proof (step_run_block s rest w) as Hs.
    destruct (exec mods s w) as [w'|e]; simpl.
    + destruct (IH w') as (n & Hn & Hrun).
      exists (S n). split; [lia|]. by eapply nsteps_l.
    + exists 1. split; [lia|]. eapply nsteps_l; [done | constructor].
Qed.

Lemma run_block_rtc todo w :
  rtc (step mods) (running todo w)
    (terminated (exit_code (run_block mods todo w))
                (final (run_block mods todo w))).
Proof.
  destruct (run_block_nsteps todo w) as (n & _ & Hn).
  by eapply rtc_nsteps_2.
Qed.

(** A run that ends with exit status 0 has executed every statement. *)
Lemma run_block_nsteps_exit0 todo :
  ∀ w, exit_code (run_block mods todo w) = 0 →
    nsteps (step mods) (S (length todo)) (running todo w)
      (terminated 0 (final (run_block mods todo w))).
Proof.
  induction todo as [|s rest IH]; intros w; simpl.
  - intros _. eapply nsteps_l; [constructor | constructor].
  - pose proof (step_run_block s rest w) as Hs.
    destruct (exec mods s w) as [w'|e]; simpl; [|done].
    intros H0. eapply nsteps_l; [exact Hs | by apply IH].
Qed.

(** Every path of the machine is short: a step consumes the statement
    at the head of the list or halts, so no statement runs twice. *)
Lemma nsteps_bounded n :
  ∀ todo w c,
    nsteps (step mods) n (running todo w) c → (n ≤ S (length todo))%nat.
Proof.
  induction n as [|n IH]; intros todo w c Hn; [lia|].
  inversion Hn as [|? ? y ? Hs Hrest]; subst.
  inversion Hs; subst; simpl.
  - apply IH in Hrest. lia.
  - inversion Hrest as [|? ? y' ? Hs' _]; subst; [lia|]. inversion Hs'.
  - inversion Hrest as [|? ? y' ? Hs' _]; subst; [lia|]. inversion Hs'.
Qed.

(** The untouched resources stay so along every path. *)
Lemma step_untouched c c' :
  step mods c c' → untouched (world_of c) (world_of c').
Proof.
  intros Hs. inversion Hs; subst; simpl.
  - by eapply exec_untouched.
  - apply report_untouched.
  - apply untouched_refl.
Qed.

Lemma rtc_untouched c c' :
  rtc (step mods) c c' → untouched (world_of c) (world_of c').
Proof.
  induction 1 as [c|c y c' Hs _ IH].
  - apply untouched_refl.
  - eapply untouched_trans; [by eapply step_untouched | exact IH].
Qed.

(** While only imports have run, standard output is as it was; and
    when one of them fails nothing after it runs. *)
Lemma failed_import_keeps_stdout rest pre :
  Forall is_import pre → Exists (missing mods) pre →
  ∀ w c, rtc (step mods) (running (pre ++ rest) w) c →
    stdout (world_of c) = stdout w.
Proof.
  induction pre as [|s pre IH]; intros Himp Hmiss w c Hr.
  - by apply Exists_nil in Hmiss.
  - apply Forall_cons in Himp as [Hs Himp].
    simpl in Hr. inversion Hr as [|? y ? Hstep Hrest]; subst; [done|].
    destruct s as [name|text]; [|done].
    inversion Hstep as [? ? ? w' Hex|? ? ? e Hex|]; subst.
    + simpl in Hex. case_decide as Hin; [|done].
      injection Hex as <-.
      apply Exists_cons in Hmiss as [Hm|Hm]; [done|].
      by rewrite (IH Himp Hm _ _ Hrest).
    + by rewrite (rtc_halted (terminated 1 (report e w)) c I Hrest).
Qed.

End Machine.

Lemma run_completes i :
  completes i (terminated (exit_code (run i)) (final (run i))).
Proof. split; [apply run_block_rtc | done]. Qed.

(** ** The three ways a run of the script can go *)

Lemma run_imports_ok i :
  "requests" ∈ installed i → "json" ∈ installed i →
  run i =
    {| exit_code := 0;
       final :=
         {| stdout := section6_text; stderr := []; stdin := input i;
            environ := os_environ i; files := disk i; sent := [];
            namespace := {[ "json" ]} ∪ ({[ "requests" ]} ∪ ∅) |} |}.
Proof.
  intros Hr Hj. unfold run, temp_whatsapp_setup.
  cbn [run_block exec]. rewrite !decide_True by done. reflexivity.
Qed.

Lemma run_no_requests i :
  "requests" ∉ installed i →
  run i =
    {| exit_code := 1;
       final := report (ModuleNotFoundError "requests") (boot i) |}.
Proof.
  intros Hr. unfold run, temp_whatsapp_setup.
  cbn [run_block exec]. by rewrite decide_False.
Qed.

Lemma run_no_json i :
  "requests" ∈ installed i → "json" ∉ installed i →
  run i =
    {| exit_code := 1;
       final := report (ModuleNotFoundError "json")
                  (bind_name "requests" (boot i)) |}.
Proof.
  intros Hr Hj. unfold run, temp_whatsapp_setup.
  cbn [run_block exec]. rewrite decide_True by done.
  cbn [run_block exec]. by rewrite decide_False.
Qed.

(** Case analysis on the two imports, rewriting [run i] to its value. *)
Ltac run_cases i :=
  let Hr := fresh "Hrequests" in
  let Hj := fresh "Hjson" in
  destruct (decide ("requests" ∈ installed i)) as [Hr|Hr];
  [ destruct (decide ("json" ∈ installed i)) as [Hj|Hj];
    [ rewrite (run_imports_ok i Hr Hj)
    | rewrite (run_no_json i Hr Hj) ]
  | rewrite (run_no_requests i Hr) ].

(** ** The output of a run *)

(** C1, as the script has it: started in an installation where the
    modules [requests] and [json] are found, the script writes to
    standard output exactly the text block of section 6 (banner, the five
    numbered steps with their sub-items and blank lines, the closing
    line), in that order, writes no traceback and ends with exit status
    0.  The arguments it is started with play no part. *)
Theorem checklist_printed_when_imports_succeed (i : Invocation) :
  "requests" ∈ installed i → "json" ∈ installed i →
  stdout (final (run i)) = section6_text ∧
  stderr (final (run i)) = [] ∧
  exit_code (run i) = 0.
Proof.
  intros Hr Hj. by rewrite (run_imports_ok i Hr Hj).
Qed.

Lemma checklist_printed_witness :
  "requests" ∈ installed with_requests ∧
  "json" ∈ installed with_requests ∧
  stdout (final (run with_requests)) = section6_text ∧
  stderr (final (run with_requests)) = [] ∧
  exit_code (run with_requests) = 0.
Proof.
  split; [by vm_compute|]. split; [by vm_compute|].
  apply (checklist_printed_when_imports_succeed with_requests);
    by vm_compute.
Defined.

(** C1 as stated fails: a stock Python, started with no arguments, has no
    module [requests]; the first statement raises, nothing reaches
    standard output and the exit status is 1. *)
Lemma no_arguments_no_requests_prints_nothing :
  argv stock_python = [] ∧
  stdout (final (run stock_python)) = "" ∧
  stdout (final (run stock_python)) ≠ section6_text ∧
  exit_code (run stock_python) = 1.
Proof.
  repeat split; by vm_compute.
Qed.

(** ** Exit status and standard error *)

(** C3, as the script has it: the exit status is 0 exactly when both
    imports succeed, and 1 when one of them fails: a failing import is
    the failure path of the script. *)
Theorem exit_code_zero_iff_imports_succeed (i : Invocation) :
  (exit_code (run i) = 0 ↔
     "requests" ∈ installed i ∧ "json" ∈ installed i) ∧
  (¬ ("requests" ∈ installed i ∧ "json" ∈ installed i) →
     exit_code (run i) = 1).
Proof.
  split.
  - run_cases i; simpl; (split; [intros ? | intros [? ?]]); by auto.
  - run_cases i; simpl; [tauto | done | done].
Qed.

(** C3 as stated fails: in a stock Python the import of [requests]
    raises [ModuleNotFoundError] and the exit status is 1, not 0. *)
Lemma stock_python_exit_code_one :
  exec (installed stock_python) (import "requests") (boot stock_python)
    = inr (ModuleNotFoundError "requests") ∧
  exit_code (run stock_python) = 1 ∧
  exit_code (run stock_python) ≠ 0.
Proof.
  repeat split; by vm_compute.
Qed.



(** ** Frame: network, files, environment, standard input *)

(** Two invocations on the same installation give the same exit status
    and the same streams, whatever else differs between them. *)
Lemma run_same_installation i j :
  installed i = installed j →
  exit_code (run i) = exit_code (run j) ∧
  observe (final (run i)) = observe (final (run j)).
Proof.
  intros Hm. unfold run. rewrite Hm.
  by apply run_block_observe.
Qed.




(** C10: standard input is never read: at every point of every run the
    pending input is the one found at start, the exit status and the
    streams do not depend on it, and the run completes whatever the
    input, also when there is none. *)
Theorem stdin_never_read (i : Invocation) :
  (∀ c, rtc (step (installed i)) (start i) c →
     stdin (world_of c) = input i) ∧
  stdin (final (run i)) = input i ∧
  (∀ text,
     let j := {| argv := argv i; os_environ := os_environ i;
                 disk := disk i; input := text;
                 installed := installed i |} in
     (∃ c, completes j c) ∧
     exit_code (run j) = exit_code (run i) ∧
     observe (final (run j)) = observe (final (run i))).
Proof.
  assert (Hreach : ∀ c, rtc (step (installed i)) (start i) c →
     stdin (world_of c) = input i).
  { intros c Hc. by apply rtc_untouched in Hc as (Hi & _). }
  split; [exact Hreach|]. split.
  - apply (Hreach _ (proj1 (run_completes i))).
  - intros text j. split; [eexists; apply run_completes|].
    by apply run_same_installation.
Qed.

(** ** Determinism and input independence *)







(** ** Termination *)

(** C7, as the script has it: the script always terminates, in one
    linear pass.  From the start the machine halts within 14 steps (13
    statements and the exit), no execution path is longer, a
    configuration has at most one successor, a step of a running
    configuration either halts or moves on to the next statement (never
    back, never elsewhere), a halted configuration has no successor, and
    exit status 0 is reached only after all 13 statements.  When both
    imports succeed the machine runs the 13 statements, has then printed
    the last line, and moves to [terminated].  When an import fails it
    moves to [terminated] at that import, the first or the second
    statement, with nothing printed. *)
Theorem always_terminates_in_one_pass (i : Invocation) :
  (∃ n c, nsteps (step (installed i)) n (start i) c ∧ halted c ∧
          (n ≤ 14)%nat) ∧
  (∀ n c, nsteps (step (installed i)) n (start i) c → (n ≤ 14)%nat) ∧
  (∀ c c1 c2,
     step (installed i) c c1 → step (installed i) c c2 → c1 = c2) ∧
  (∀ todo w c, step (installed i) (running todo w) c →
     halted c ∨ ∃ w', c = running (tail todo) w') ∧
  (∀ c c', halted c → ¬ step (installed i) c c') ∧
  (∀ n w, nsteps (step (installed i)) n (start i) (terminated 0 w) →
     n = 14 ∧ stdout w = section6_text) ∧
  ("requests" ∈ installed i → "json" ∈ installed i →
     ∃ w, nsteps (step (installed i)) 13 (start i) (running [] w) ∧
          stdout w = section6_text ∧
          step (installed i) (running [] w) (terminated 0 w)) ∧
  ("requests" ∉ installed i →
     ∃ w, nsteps (step (installed i)) 1 (start i) (terminated 1 w) ∧
          stdout w = "") ∧
  ("requests" ∈ installed i → "json" ∉ installed i →
     ∃ w, nsteps (step (installed i)) 2 (start i) (terminated 1 w) ∧
          stdout w = "").
Proof.
  repeat apply conj.
  - destruct (run_block_nsteps (installed i) temp_whatsapp_setup (boot i))
      as (n & Hn & Hrun).
    exists n. eexists. split; [exact Hrun|]. split; [done|]. exact Hn.
  - intros n c Hn. by apply nsteps_bounded in Hn.
  - apply step_deterministic.
  - intros todo w c Hs. inversion Hs; subst; simpl; eauto.
  - apply halted_stuck.
  - intros n w Hn.
    assert (Hrun : ∃ m, nsteps (step (installed i)) m (start i)
                     (terminated (exit_code (run i)) (final (run i)))).
    { destruct (run_block_nsteps (installed i) temp_whatsapp_setup (boot i))
        as (m & _ & H). by exists m. }
    destruct Hrun as [m Hrun].
    destruct (nsteps_deterministic _ _ _ _ _ _ Hn I Hrun I) as [-> Heq].
    assert (H0 : exit_code (run i) = 0) by congruence.
    assert (Hw : w = final (run i)) by congruence.
    pose proof (run_block_nsteps_exit0 (installed i) temp_whatsapp_setup
                  (boot i) H0) as Hexact.
    destruct (nsteps_deterministic _ _ _ _ _ _ Hn I Hexact I) as [-> _].
    split; [done|].
    subst w. revert H0. clear. run_cases i; simpl; done.
  - intros Hr Hj.
    assert (H0 : exit_code (run i) = 0) by by rewrite (run_imports_ok i Hr Hj).
    pose proof (run_block_nsteps_exit0 (installed i) temp_whatsapp_setup
                  (boot i) H0) as Hexact.
    apply nsteps_inv_r in Hexact as (y & Hy & Hlast).
    inversion Hlast as [| |w Hw]; subst.
    exists (final (run_block (installed i) temp_whatsapp_setup (boot i))).
    split; [exact Hy|]. split; [|constructor].
    fold (run i). by rewrite (run_imports_ok i Hr Hj).
  - intros Hr. eexists. split.
    + apply nsteps_once. unfold start, temp_whatsapp_setup.
      apply step_raise. simpl. by rewrite decide_False.
    + done.
  - intros Hr Hj. eexists. split.
    + unfold start, temp_whatsapp_setup.
      eapply nsteps_l.
      * apply step_next. simpl. by rewrite decide_True.
      * apply nsteps_once. apply step_raise. simpl. by rewrite decide_False.
    + done.
Qed.

(** C7 as stated fails: on a stock Python the machine moves from
    [running] to [terminated] in its first step, at [import requests],
    before any line is printed. *)
Lemma stock_python_halts_before_any_line :
  nsteps (step (installed stock_python)) 1 (start stock_python)
    (terminated 1
       (report (ModuleNotFoundError "requests") (boot stock_python))) ∧
  stdout (report (ModuleNotFoundError "requests") (boot stock_python)) = "" ∧
  stdout (report (ModuleNotFoundError "requests") (boot stock_python))
    ≠ section6_text.
Proof.
  split; [|split; by vm_compute].
  apply nsteps_once. unfold start, temp_whatsapp_setup.
  apply step_raise. by vm_compute.
Qed.

(** ** Imports come first *)

(** C8: the two imports are the first two statements and every [print]
    comes after them; when [requests] or [json] is not found, standard
    output is empty at every point of the run and at its end: no part of
    the text block is emitted. *)
Theorem no_output_when_an_import_fails (i : Invocation) :
  "requests" ∉ installed i ∨ "json" ∉ installed i →
  (∃ texts : list string,
     temp_whatsapp_setup =
       ([import "requests"; import "json"] ++ map print texts)%list) ∧
  (∀ c, rtc (step (installed i)) (start i) c → stdout (world_of c) = "") ∧
  stdout (final (run i)) = "".
Proof.
  intros Hfail.
  assert (Hreach : ∀ c, rtc (step (installed i)) (start i) c →
                        stdout (world_of c) = "").
  { intros c Hc.
    apply (failed_import_keeps_stdout (installed i)
             (skipn 2 temp_whatsapp_setup)
             [import "requests"; import "json"]) in Hc; [done| |].
    - by repeat constructor.
    - destruct Hfail as [Hr|Hj].
      + by apply Exists_cons_hd.
      + by apply Exists_cons_tl, Exists_cons_hd. }
  split; [by eexists (_ :: _ :: _ :: _ :: _ :: _ :: _ :: _ :: _ :: _ :: [_])|].
  split; [exact Hreach|].
  apply (Hreach _ (proj1 (run_completes i))).
Qed.

Lemma no_output_witness :
  ("requests" ∉ installed stock_python ∨ "json" ∉ installed stock_python) ∧
  stdout (final (run stock_python)) = "".
Proof.
  assert (H : "requests" ∉ installed stock_python ∨
              "json" ∉ installed stock_python) by (left; by vm_compute).
  split; [exact H|].
  apply (no_output_when_an_import_fails stock_python H).
Defined.

(** ** Lines and newlines *)

Lemma append_assoc_string (a b c : string) :
  (a +:+ b) +:+ c = a +:+ (b +:+ c).
Proof.
  induction a as [|x a IH]; [done|]. exact (f_equal (String x) IH).
Qed.



(** ** Output so far: whole lines, a prefix of the checklist *)

Lemma append_empty_string (a : string) : a +:+ "" = a.
Proof.
  induction a as [|x a IH]; [done|]. exact (f_equal (String x) IH).
Qed.

Lemma unlines_app (xs ys : list string) :
  unlines (xs ++ ys) = unlines xs +:+ unlines ys.
Proof.
  induction xs as [|x xs IH]; simpl; [done|].
  rewrite IH. by rewrite !append_assoc_string.
Qed.

Lemma printed_app (xs ys : list stmt) :
  printed (xs ++ ys) = printed xs +:+ printed ys.
Proof.
  induction xs as [|[name|text] xs IH]; simpl; [done|done|].
  rewrite IH. by rewrite !append_assoc_string.
Qed.

(** What a reachable configuration has on standard output is what was
    there plus the text of the first [k] statements, for some [k]; its
    namespace has grown by names these statements import at most. *)
Lemma rtc_printed mods (todo : list stmt) :
  ∀ w c, rtc (step mods) (running todo w) c →
    ∃ k, stdout (world_of c) = stdout w +:+ printed (take k todo) ∧
         namespace (world_of c) ⊆ namespace w ∪ imported (take k todo).
Proof.
  induction todo as [|s rest IH]; intros w c Hr.
  - exists 0. inversion Hr as [|? y ? Hs Hrest]; subst.
    + simpl. split; [by rewrite append_empty_string | set_solver].
    + inversion Hs; subst.
      rewrite (rtc_halted mods (terminated 0 w) c I Hrest). simpl.
      split; [by rewrite append_empty_string | set_solver].
  - inversion Hr as [|? y ? Hs Hrest]; subst.
    { exists 0. simpl. split; [by rewrite append_empty_string | set_solver]. }
    inversion Hs as [? ? ? w' Hex|? ? ? e Hex|]; subst.
    + destruct (IH _ _ Hrest) as (k & Hout & Hns).
      exists (S k). rewrite Hout. destruct s as [name|text]; simpl in Hex.
      * case_decide; [|done]. injection Hex as <-. simpl.
        split; [done|]. simpl in Hns.
        intros x Hx. specialize (Hns x Hx). set_unfold. tauto.
      * injection Hex as <-. simpl.
        split; [by rewrite !append_assoc_string | exact Hns].
    + exists 0. rewrite (rtc_halted mods (terminated 1 (report e w)) c I Hrest).
      simpl. split; [by rewrite append_empty_string | set_solver].
Qed.

Lemma printed_script : printed temp_whatsapp_setup = section6_text.
Proof. reflexivity. Qed.

(** The text of the first [k] statements is a whole number of lines of
    the checklist. *)
Lemma printed_take_lines (k : nat) :
  ∃ m, printed (take k temp_whatsapp_setup) = unlines (take m section6_lines).
Proof.
  unfold temp_whatsapp_setup.
  do 13 (destruct k as [|k];
         [ first [ by exists 0 | by exists 1 | by exists 3 | by exists 4
                 | by exists 5 | by exists 7 | by exists 8 | by exists 9
                 | by exists 10 | by exists 12 | by exists 13 ] | ]).
  exists 15. simpl. by rewrite take_nil.
Qed.

(** X1: after each completed statement of every run, what has been
    written to standard output so far is a whole number of lines of the
    checklist, taken from its top, and so a prefix of the full text: no
    line is ever written out of order or twice. *)
Theorem output_so_far_is_whole_lines (i : Invocation) (c : config) :
  rtc (step (installed i)) (start i) c →
  ∃ m rest,
    stdout (world_of c) = unlines (take m section6_lines) ∧
    section6_text = stdout (world_of c) +:+ rest.
Proof.
  intros Hr. apply rtc_printed in Hr as (k & Hout & _).
  change (stdout (world_of c) = printed (take k temp_whatsapp_setup)) in Hout.
  destruct (printed_take_lines k) as [m Hm].
  exists m, (unlines (drop m section6_lines)).
  rewrite Hout, Hm. split; [done|].
  rewrite <- unlines_app. by rewrite take_drop.
Qed.

Lemma output_so_far_witness :
  let c := running (drop 4 temp_whatsapp_setup)
             (write_stdout
                ((nl +:+ "1. Go to: https://developers.facebook.com/apps") +:+ nl)
                (write_stdout
                   ("=== WhatsApp Business API Quick Setup ===" +:+ nl)
                   (bind_name "json"
                      (bind_name "requests" (boot with_requests))))) in
  rtc (step (installed with_requests)) (start with_requests) c ∧
  ∃ m rest,
    stdout (world_of c) = unlines (take m section6_lines) ∧
    section6_text = stdout (world_of c) +:+ rest.
Proof.
  intros c.
  assert (Hr : rtc (step (installed with_requests)) (start with_requests) c).
  { unfold start, temp_whatsapp_setup, c.
    eapply rtc_l; [by apply step_next|].
    eapply rtc_l; [by apply step_next|].
    eapply rtc_l; [by apply step_next|].
    eapply rtc_l; [by apply step_next|].
    apply rtc_refl. }
  split; [exact Hr|].
  apply (output_so_far_is_whole_lines with_requests c Hr).
Defined.

(** ** Names bound at module level *)

Lemma imported_app (xs ys : list stmt) :
  imported (xs ++ ys) = imported xs ∪ imported ys.
Proof.
  induction xs as [|[name|text] xs IH]; simpl.
  - by rewrite (left_id_L ∅ (∪)).
  - by rewrite IH, (assoc_L (∪)).
  - exact IH.
Qed.

(** X2: the script binds no name but those of the two modules it
    imports: at every point of every run the module namespace is within
    [requests] and [json]; after a run with exit status 0 it is exactly
    these two; and when [requests] is not found nothing is bound at all,
    [json] is not even looked for. *)
Theorem namespace_only_requests_and_json (i : Invocation) :
  (∀ c, rtc (step (installed i)) (start i) c →
     namespace (world_of c) ⊆ {[ "requests"; "json" ]}) ∧
  (exit_code (run i) = 0 →
     namespace (final (run i)) = {[ "requests"; "json" ]}) ∧
  ("requests" ∉ installed i → namespace (final (run i)) = ∅).
Proof.
  split; [|split].
  - intros c Hr x Hx. apply rtc_printed in Hr as (k & _ & Hns).
    specialize (Hns x Hx).
    assert (Hk : x ∈ imported temp_whatsapp_setup).
    { rewrite <- (take_drop k temp_whatsapp_setup), imported_app.
      simpl in Hns. set_unfold; tauto. }
    revert Hk. simpl. set_unfold; tauto.
  - run_cases i; simpl; [intros _ | done | done].
    apply set_eq. intros x. set_unfold; tauto.
  - intros Hr. by rewrite (run_no_requests i Hr).
Qed.

(** ** Characters written *)

Lemma ascii_only_app (a b : string) :
  ascii_only (a +:+ b) = ascii_only a && ascii_only b.
Proof.
  induction a as [|x a IH]; [done|].
  change (ascii_only (String x a +:+ b))
    with ((nat_of_ascii x <? 128)%nat && ascii_only (a +:+ b)).
  rewrite IH. simpl. by rewrite andb_assoc.
Qed.

(** X3: the script writes 7-bit ASCII only: at every point of every run
    each character on standard output has a code below 128. *)
Theorem output_is_ascii (i : Invocation) :
  (∀ c, rtc (step (installed i)) (start i) c →
     ascii_only (stdout (world_of c)) = true) ∧
  ascii_only (stdout (final (run i))) = true.
Proof.
  assert (Hreach : ∀ c, rtc (step (installed i)) (start i) c →
                        ascii_only (stdout (world_of c)) = true).
  { intros c Hr. apply rtc_printed in Hr as (k & Hout & _).
    change (stdout (world_of c) = printed (take k temp_whatsapp_setup)) in Hout.
    assert (Hall : ascii_only (printed temp_whatsapp_setup) = true)
      by by vm_compute.
    rewrite <- (take_drop k temp_whatsapp_setup) in Hall.
    rewrite printed_app, ascii_only_app, <- Hout in Hall.
    by apply andb_prop in Hall as [Hall _]. }
  split; [exact Hreach|].
  apply (Hreach _ (proj1 (run_completes i))).
Qed.
